(** * Image upload backend (app.py): request validation and error mapping

    A shallow embedding of the four Flask views of [app.py] and of the
    Python operations they use, followed by the properties of the
    request/response contract.

    Conventions of the embedding:
    - a Python [str] is a Rocq [string] (the bytes of its UTF-8 encoding);
    - a value travelling through JSON (provider responses, response
      bodies, keyword arguments) is a [pyval]; numbers are restricted to
      integers;
    - a Python [dict] with string keys is a [gmap string pyval];
    - an [Exception] is an [Exn]; code that may raise lives in [outcome]
      (pure) or in [M] (with the provider calls and the log threaded
      through);
    - the provider SDK ([cloudinary.uploader], [cloudinary.api]) is a
      record of functions [Cloudinary] handed to each view. *)

From stdpp Require Import gmap strings list fin_maps.
From Stdlib Require Import ZArith Ascii String.

Set Warnings "-register-all".
#[local] Open Scope string_scope.
#[local] Open Scope Z_scope.

(** ** Python string operations used by [allowed_file] *)

Module PyStr.

(** [c in s] for a one-character [c]. *)
Fixpoint contains (c : ascii) (s : string) : bool :=
  match s with
  | EmptyString => false
  | String a s' => if Ascii.eqb a c then true else contains c s'
  end.

(** [s.rsplit(sep, 1)] for a one-character separator: the string is cut
    at the last occurrence of [sep]; without an occurrence the result is
    the one-element list [[s]]. *)
Fixpoint rsplit1 (sep : ascii) (s : string) : list string :=
  match s with
  | EmptyString => [EmptyString]
  | String a s' =>
      match rsplit1 sep s' with
      | [h; t] => [String a h; t]
      | _ => if Ascii.eqb a sep then [EmptyString; s'] else [String a s']
      end
  end.

(** [c.lower()] on one character, for the ASCII letters only: the
    bytes of non-ASCII characters are left alone.  This decides
    membership of [s.lower()] in a set of ASCII words as Python does,
    since no non-ASCII character lowers to one of the letters of
    [ALLOWED_EXTENSIONS]; it is not [s.lower()] itself on a string with
    other cased letters. *)
Definition lower_ascii (c : ascii) : ascii :=
  let n := nat_of_ascii c in
  if ((65 <=? n) && (n <=? 90))%nat then ascii_of_nat (n + 32) else c.

(** [s] with its ASCII letters lowered: [s.lower()] as far as
    [allowed_file] depends on it. *)
Fixpoint lower (s : string) : string :=
  match s with
  | EmptyString => EmptyString
  | String a s' => String (lower_ascii a) (lower s')
  end.

(** [repr(s)] for a string without quotes, backslashes or control
    characters (the dictionary keys of the program). *)
Definition repr (s : string) : string := "'" ++ s ++ "'".

End PyStr.

(** ** Python values and exceptions *)

Inductive pyval :=
| PNone
| PBool (b : bool)
| PInt (n : Z)
| PStr (s : string)
| PList (l : list pyval)
| PDict (d : gmap string pyval).

(** The subclasses of [Exception] the views can meet.  [Error] stands
    for whatever the provider SDK raises, with its [str()]. *)
Inductive Exn :=
| KeyError (key : string)
| IndexError (msg : string)
| TypeError (msg : string)
| AttributeError (msg : string)
| BadRequestKeyError (key : string)
| RequestEntityTooLarge
| Error (msg : string).

(** [str(e)]. *)
Definition str (e : Exn) : string :=
  match e with
  | KeyError key => PyStr.repr key
  | IndexError msg | TypeError msg | AttributeError msg | Error msg => msg
  | BadRequestKeyError _ =>
      "400 Bad Request: The browser (or proxy) sent a request that this server could not understand."
  | RequestEntityTooLarge =>
      "413 Request Entity Too Large: The data value transmitted exceeds the capacity limit."
  end.

(** Result of a computation that may raise. *)
Inductive outcome (A : Type) :=
| Return (a : A)
| Raise (e : Exn).
Arguments Return {A} a.
Arguments Raise {A} e.

#[global] Instance outcome_ret : MRet outcome := @Return.
#[global] Instance outcome_bind : MBind outcome := λ A B f m,
  match m with
  | Return a => f a
  | Raise e => Raise e
  end.

Definition type_name (v : pyval) : string :=
  match v with
  | PNone => "NoneType"
  | PBool _ => "bool"
  | PInt _ => "int"
  | PStr _ => "str"
  | PList _ => "list"
  | PDict _ => "dict"
  end.

(** [d[k]] on a dictionary. *)
Definition dict_getitem (d : gmap string pyval) (k : string) : outcome pyval :=
  match d !! k with
  | Some v => Return v
  | None => Raise (KeyError k)
  end.

(** [d.get(k, default)] on a dictionary. *)
Definition dict_get (d : gmap string pyval) (k : string) (default : pyval) : pyval :=
  match d !! k with
  | Some v => v
  | None => default
  end.

(** [v[k]] with a string subscript on a value of any type. *)
Definition getitem (v : pyval) (k : string) : outcome pyval :=
  match v with
  | PDict d => dict_getitem d k
  | PStr _ => Raise (TypeError "string indices must be integers, not 'str'")
  | PList _ => Raise (TypeError "list indices must be integers or slices, not str")
  | _ => Raise (TypeError ("'" ++ type_name v ++ "' object is not subscriptable"))
  end.

(** [v.get(k, default)] on a value of any type. *)
Definition get (v : pyval) (k : string) (default : pyval) : outcome pyval :=
  match v with
  | PDict d => Return (dict_get d k default)
  | _ => Raise (AttributeError ("'" ++ type_name v ++ "' object has no attribute 'get'"))
  end.

Fixpoint chars (s : string) : list pyval :=
  match s with
  | EmptyString => []
  | String a s' => PStr (String a EmptyString) :: chars s'
  end.

(** The elements a [for] loop sees.  A dictionary yields its keys (here
    in the order of [map_to_list], not in insertion order). *)
Definition iter (v : pyval) : outcome (list pyval) :=
  match v with
  | PList l => Return l
  | PStr s => Return (chars s)
  | PDict d => Return (PStr <$> (map_to_list d).*1)
  | _ => Raise (TypeError ("'" ++ type_name v ++ "' object is not iterable"))
  end.

(** [v == s] for a string [s]. *)
Definition eq_str (v : pyval) (s : string) : bool :=
  match v with
  | PStr s' => String.eqb s' s
  | _ => false
  end.

(** ** Validation of the file name *)

Definition ALLOWED_EXTENSIONS : gset string :=
  {[ "png"; "jpg"; "jpeg"; "gif"; "webp" ]}.

(** [seq[1]] on a list of strings. *)
Definition item1 (l : list string) : outcome string :=
  match l !! 1%nat with
  | Some x => Return x
  | None => Raise (IndexError "list index out of range")
  end.

Definition allowed_file (filename : string) : outcome bool :=
  if PyStr.contains "." filename then
    ext ← item1 (PyStr.rsplit1 "." filename);
    mret (bool_decide (PyStr.lower ext ∈ ALLOWED_EXTENSIONS))
  else mret false.

(** ** The world of a view: provider calls and log records *)

(** An uploaded file, [werkzeug.datastructures.FileStorage]. *)
Record FileStorage := {
  filename : string;
  stream : string
}.

(** The request, as far as the views look at it: the declared length of
    the body; the file parts the body carries (for each field name, the
    file a subscript of [request.files] returns); and the exception, if
    any, that Werkzeug's form parser raises on this body.  The parser is
    not part of the program and is taken as given: it raises
    [RequestEntityTooLarge] for a body of more than 1000 parts or with
    an oversized form field, whatever the declared length. *)
Record Request := {
  content_length : Z;
  files : gmap string FileStorage;
  refused : option Exn
}.

Record Response := {
  status : Z;
  body : pyval
}.

(** The provider SDK: [cloudinary.uploader.upload], called with a file
    and keyword arguments, [cloudinary.api.resources], called with
    keyword arguments, and [cloudinary.uploader.destroy], called with a
    public id.  Each returns a dictionary or raises. *)
Record Cloudinary := {
  sdk_upload : FileStorage → gmap string pyval → outcome (gmap string pyval);
  sdk_resources : gmap string pyval → outcome (gmap string pyval);
  sdk_destroy : string → outcome (gmap string pyval)
}.

Inductive ProviderCall :=
| CallUpload (file : FileStorage) (kwargs : gmap string pyval)
| CallResources (kwargs : gmap string pyval)
| CallDestroy (public_id : string).

Inductive Level := INFO | ERROR.

(** The pieces of an f-string: literal text and interpolated values. *)
Inductive fpart :=
| Lit (s : string)
| Interp (v : pyval).

Record LogRecord := {
  levelname : Level;
  msg : list fpart
}.

Record World := {
  calls : list ProviderCall;
  log : list LogRecord
}.

Definition world0 : World := {| calls := []; log := [] |}.

(** Computations of a view: they may raise, call the provider and log. *)
Definition M (A : Type) : Type := World → outcome A * World.

#[global] Instance M_ret : MRet M := λ A a w, (Return a, w).
#[global] Instance M_bind : MBind M := λ A B f m w,
  match m w with
  | (Return a, w') => f a w'
  | (Raise e, w') => (Raise e, w')
  end.

Definition lift {A} (o : outcome A) : M A := λ w, (o, w).

(** [try: body except Exception as e: handler(e)]. *)
Definition try_except {A} (body : M A) (handler : Exn → M A) : M A := λ w,
  match body w with
  | (Return a, w') => (Return a, w')
  | (Raise e, w') => handler e w'
  end.

Definition record_call (c : ProviderCall) : M unit := λ w,
  (Return (), {| calls := calls w ++ [c]; log := log w |}).

Definition logger (lvl : Level) (m : list fpart) : M unit := λ w,
  (Return (), {| calls := calls w; log := log w ++ [{| levelname := lvl; msg := m |}] |}).

Definition uploader_upload (cloudinary : Cloudinary) (file : FileStorage)
    (kwargs : gmap string pyval) : M (gmap string pyval) :=
  record_call (CallUpload file kwargs);; lift (sdk_upload cloudinary file kwargs).

Definition api_resources (cloudinary : Cloudinary)
    (kwargs : gmap string pyval) : M (gmap string pyval) :=
  record_call (CallResources kwargs);; lift (sdk_resources cloudinary kwargs).

Definition uploader_destroy (cloudinary : Cloudinary)
    (public_id : string) : M (gmap string pyval) :=
  record_call (CallDestroy public_id);; lift (sdk_destroy cloudinary public_id).

(** ** The framework *)

Definition MAX_CONTENT_LENGTH : Z := 16 * 1024 * 1024.

(** [request.files].  The limit set in [app.config] is enforced by
    Werkzeug, not before the view runs but when the body is first
    parsed: the first access to [request.files] raises
    [RequestEntityTooLarge] (an [HTTPException], hence an [Exception])
    when the declared length exceeds [MAX_CONTENT_LENGTH].  Within the
    limit the body is parsed, and whatever the parser raises is raised
    here too. *)
Definition request_files (request : Request) : outcome (gmap string FileStorage) :=
  if (MAX_CONTENT_LENGTH <? content_length request)%Z then Raise RequestEntityTooLarge
  else match refused request with
       | Some e => Raise e
       | None => Return (files request)
       end.

(** [request.files[name]]. *)
Definition files_getitem (fs : gmap string FileStorage) (name : string)
    : outcome FileStorage :=
  match fs !! name with
  | Some f => Return f
  | None => Raise (BadRequestKeyError name)
  end.

(** [jsonify(d)] and [jsonify(d), code]. *)
Definition jsonify (d : gmap string pyval) : Response :=
  {| status := 200; body := PDict d |}.

Definition with_status (r : Response) (code : Z) : Response :=
  {| status := code; body := body r |}.

(** ** The views *)

Definition upload_kwargs : gmap string pyval :=
  {[ "folder" := PStr "capturas";
     "resource_type" := PStr "auto";
     "transformation" :=
       PList [ PDict {[ "quality" := PStr "auto:good" ]};
               PDict {[ "fetch_format" := PStr "auto" ]} ] ]}.

Definition upload (cloudinary : Cloudinary) (request : Request) : M Response :=
  try_except
    (fs ← lift (request_files request);
     if bool_decide ("file" ∉ dom fs) then
       mret (with_status (jsonify {[ "error" := PStr "No se encontró el archivo" ]}) 400)
     else
       file ← lift (files_getitem fs "file");
       if String.eqb (filename file) "" then
         mret (with_status (jsonify {[ "error" := PStr "Nombre de archivo vacío" ]}) 400)
       else
         ok ← lift (allowed_file (filename file));
         if negb ok then
           mret (with_status (jsonify {[ "error" := PStr "Tipo de archivo no permitido" ]}) 400)
         else
           result ← uploader_upload cloudinary file upload_kwargs;
           logged ← lift (dict_getitem result "public_id");
           logger INFO [Lit "Imagen subida exitosamente: "; Interp logged];;
           url ← lift (dict_getitem result "secure_url");
           public_id ← lift (dict_getitem result "public_id");
           created_at ← lift (dict_getitem result "created_at");
           mret (jsonify {[ "success" := PBool true;
                            "url" := url;
                            "public_id" := public_id;
                            "created_at" := created_at ]}))
    (λ e,
       logger ERROR [Lit "Error al subir imagen: "; Lit (str e)];;
       mret (with_status (jsonify {[ "error" := PStr (str e) ]}) 500)).

Definition resources_kwargs : gmap string pyval :=
  {[ "type" := PStr "upload";
     "prefix" := PStr "capturas";
     "max_results" := PInt 100;
     "context" := PBool true ]}.

(** The element of the comprehension of [list_images]. *)
Definition image_summary (res : pyval) : outcome pyval :=
  url ← getitem res "secure_url";
  public_id ← getitem res "public_id";
  created_at ← get res "created_at" (PStr "");
  format ← get res "format" (PStr "");
  mret (PDict {[ "url" := url;
                 "public_id" := public_id;
                 "created_at" := created_at;
                 "format" := format ]}).

Definition list_images (cloudinary : Cloudinary) : M Response :=
  try_except
    (resources ← api_resources cloudinary resources_kwargs;
     listed ← lift (dict_getitem resources "resources");
     images ← lift (items ← iter listed; mapM image_summary items);
     mret (jsonify {[ "success" := PBool true;
                      "images" := PList images;
                      "total" := PInt (Z.of_nat (List.length images)) ]}))
    (λ e,
       logger ERROR [Lit "Error al listar imágenes: "; Lit (str e)];;
       mret (with_status (jsonify {[ "error" := PStr (str e) ]}) 500)).

Definition delete_image (cloudinary : Cloudinary) (public_id : string) : M Response :=
  try_except
    (result ← uploader_destroy cloudinary public_id;
     if eq_str (dict_get result "result" PNone) "ok" then
       logger INFO [Lit "Imagen eliminada: "; Lit public_id];;
       mret (jsonify {[ "success" := PBool true;
                        "message" := PStr "Imagen eliminada" ]})
     else
       mret (with_status (jsonify {[ "error" := PStr "No se pudo eliminar la imagen" ]}) 400))
    (λ e,
       logger ERROR [Lit "Error al eliminar imagen: "; Lit (str e)];;
       mret (with_status (jsonify {[ "error" := PStr (str e) ]}) 500)).

(** ** The registered error handlers *)

Definition request_entity_too_large (error : Exn) : Response :=
  with_status (jsonify {[ "error" := PStr "El archivo es demasiado grande. Máximo 16MB" ]}) 413.

Definition not_found (error : Exn) : Response :=
  with_status (jsonify {[ "error" := PStr "Ruta no encontrada" ]}) 404.

Definition internal_error (error : Exn) : M Response :=
  logger ERROR [Lit "Error interno: "; Lit (str error)];;
  mret (with_status (jsonify {[ "error" := PStr "Error interno del servidor" ]}) 500).

(** ** Vocabulary of the properties *)

(** A body of the shape [{error: string}], with no other field. *)
Definition error_body (b : pyval) : Prop :=
  ∃ s : string, b = PDict {[ "error" := PStr s ]}.

(** [ext] is the part of [name] after its last dot. *)
Definition has_extension (name ext : string) : Prop :=
  PyStr.contains "." ext = false ∧ ∃ stem : string, name = stem ++ "." ++ ext.

(** A resource of a listing that carries both identifying fields. *)
Definition identified (res : pyval) : Prop :=
  ∃ d, res = PDict d ∧ is_Some (d !! "secure_url") ∧ is_Some (d !! "public_id").

(** [img] is the summary of the resource [res]: [url] and [public_id]
    are its [secure_url] and [public_id]; [created_at] and [format] are
    its own, or the empty string when it has none. *)
Definition summary_of (res img : pyval) : Prop :=
  ∃ d secure_url public_id,
    res = PDict d ∧
    d !! "secure_url" = Some secure_url ∧
    d !! "public_id" = Some public_id ∧
    img = PDict {[ "url" := secure_url;
                   "public_id" := public_id;
                   "created_at" := default (PStr "") (d !! "created_at");
                   "format" := default (PStr "") (d !! "format") ]}.

(** A resource of a listing that lacks one of the identifying fields. *)
Definition unidentified (res : pyval) : Prop :=
  ∃ d, res = PDict d ∧ (d !! "secure_url" = None ∨ d !! "public_id" = None).

(** Sample data for the scenarios. *)
Definition sample_file (name : string) : FileStorage :=
  {| filename := name; stream := "GIF89a" |}.

Definition sample_request (name : string) : Request :=
  {| content_length := 1024;
     files := {[ "file" := sample_file name ]};
     refused := None |}.

(** Bodies within the 16 MiB limit that the form parser refuses for
    their number of parts: 1001 small form fields and no file; and the
    file [name] followed by 1000 small form fields. *)
Definition crowded_request_without_file : Request :=
  {| content_length := 615628;
     files := ∅;
     refused := Some RequestEntityTooLarge |}.

Definition crowded_request (name : string) : Request :=
  {| content_length := 615628;
     files := {[ "file" := sample_file name ]};
     refused := Some RequestEntityTooLarge |}.

Definition sample_upload_result : gmap string pyval :=
  {[ "secure_url" := PStr "https://res.cloudinary.com/demo/image/upload/capturas/abc.jpg";
     "public_id" := PStr "capturas/abc";
     "created_at" := PStr "2024-05-01T10:00:00Z";
     "bytes" := PInt 2048 ]}.

Definition sample_resources : list pyval :=
  [ PDict {[ "secure_url" := PStr "https://res.cloudinary.com/demo/a.png";
             "public_id" := PStr "capturas/a";
             "created_at" := PStr "2024-05-01T10:00:00Z";
             "format" := PStr "png" ]};
    PDict {[ "secure_url" := PStr "https://res.cloudinary.com/demo/b";
             "public_id" := PStr "capturas/b" ]} ].

(** A provider that accepts everything. *)
Definition provider_ok : Cloudinary :=
  {| sdk_upload := λ _ _, Return sample_upload_result;
     sdk_resources := λ _, Return {[ "resources" := PList sample_resources ]};
     sdk_destroy := λ _, Return {[ "result" := PStr "ok" ]} |}.

(** A provider that is unreachable. *)
Definition provider_down : Cloudinary :=
  {| sdk_upload := λ _ _, Raise (Error "Connection refused");
     sdk_resources := λ _, Raise (Error "Connection refused");
     sdk_destroy := λ _, Raise (Error "Connection refused") |}.

(** A provider whose listing has a resource without [secure_url] and
    that does not know the image to delete. *)
Definition provider_odd : Cloudinary :=
  {| sdk_upload := λ _ _, Return {[ "public_id" := PStr "capturas/abc" ]};
     sdk_resources := λ _,
       Return {[ "resources" :=
                   PList (sample_resources ++ [PDict {[ "public_id" := PStr "capturas/c" ]}]) ]};
     sdk_destroy := λ _, Return {[ "result" := PStr "not found" ]} |}.

(** The world after one more provider call, and after one more log
    record. *)
Definition after_call (c : ProviderCall) (w : World) : World :=
  {| calls := calls w ++ [c]; log := log w |}.

Definition after_log (lvl : Level) (m : list fpart) (w : World) : World :=
  {| calls := calls w; log := log w ++ [{| levelname := lvl; msg := m |}] |}.

(** What the [except] clause of a view answers for [e] and leaves
    behind: status 500, the text of [e] as error, and one ERROR record
    made of [prefix] and the same text. *)
Definition failure (prefix : string) (e : Exn) (w : World) : outcome Response * World :=
  (Return {| status := 500; body := PDict {[ "error" := PStr (str e) ]} |},
   after_log ERROR [Lit prefix; Lit (str e)] w).

(** * Properties *)

(** ** Strings *)

Section strings.
Import PyStr.

Lemma contains_app_sep (c : ascii) (stem ext : string) :
  contains c (stem ++ String c ext) = true.
Proof.
  induction stem as [|a stem IH]; simpl.
  - by rewrite Ascii.eqb_refl.
  - rewrite IH. by destruct (Ascii.eqb a c).
Qed.

Lemma rsplit1_no_sep (sep : ascii) (s : string) :
  contains sep s = false → rsplit1 sep s = [s].
Proof.
  induction s as [|a s IH]; simpl; [done|].
  destruct (Ascii.eqb a sep); [done|].
  intros H. by rewrite (IH H).
Qed.

Lemma rsplit1_last (sep : ascii) (stem ext : string) :
  contains sep ext = false → rsplit1 sep (stem ++ String sep ext) = [stem; ext].
Proof.
  intros Hext. induction stem as [|a stem IH]; simpl.
  - rewrite (rsplit1_no_sep _ _ Hext). by rewrite Ascii.eqb_refl.
  - by rewrite IH.
Qed.

(** Every string with a separator splits at its last one. *)
Lemma contains_split (sep : ascii) (s : string) :
  contains sep s = true →
  ∃ stem ext, s = stem ++ String sep ext ∧ contains sep ext = false.
Proof.
  induction s as [|a s IH]; simpl; [done|].
  destruct (contains sep s) eqn:Hs.
  - intros _. destruct (IH eq_refl) as (stem & ext & -> & Hext).
    by exists (String a stem), ext.
  - destruct (Ascii.eqb_spec a sep) as [->|]; [|done].
    intros _. by exists EmptyString, s.
Qed.
End strings.

(** ** [allowed_file] *)

Lemma allowed_file_no_dot (name : string) :
  PyStr.contains "." name = false → allowed_file name = Return false.
Proof. intros H. unfold allowed_file. by rewrite H. Qed.

Lemma allowed_file_extension (name ext : string) :
  has_extension name ext →
  allowed_file name = Return (bool_decide (PyStr.lower ext ∈ ALLOWED_EXTENSIONS)).
Proof.
  intros [Hext [stem ->]]. unfold allowed_file.
  change (stem ++ "." ++ ext) with (stem ++ String "." ext).
  by rewrite contains_app_sep, (rsplit1_last _ _ _ Hext).
Qed.

(** The subscript of [allowed_file] is always in range. *)
Lemma allowed_file_returns (name : string) :
  ∃ b, allowed_file name = Return b.
Proof.
  destruct (PyStr.contains "." name) eqn:H.
  - destruct (contains_split _ _ H) as (stem & ext & -> & Hext).
    eexists. apply allowed_file_extension. split; [done|]. by exists stem.
  - eexists. by apply allowed_file_no_dot.
Qed.

Lemma has_extension_nonempty (name ext : string) :
  has_extension name ext → name ≠ "".
Proof. intros [_ [stem ->]]. by destruct stem. Qed.

Example allowed_photo_JPG : allowed_file "photo.JPG" = Return true.
Proof. vm_compute. reflexivity. Qed.

Example allowed_document_pdf : allowed_file "document.pdf" = Return false.
Proof. vm_compute. reflexivity. Qed.

(** C9.  When the part after the last dot of a file name is [ext], the
    verdict of [allowed_file] is whether [ext], lowercased, is in the
    allowed set: two names with the same last extension get the same
    verdict whatever comes before it.  So "archive.tar.png" is accepted
    and "photo.png.exe" is rejected. *)
Theorem allowed_file_last_extension (stem1 stem2 ext : string) :
  PyStr.contains "." ext = false →
  allowed_file (stem1 ++ "." ++ ext)
    = Return (bool_decide (PyStr.lower ext ∈ ALLOWED_EXTENSIONS)) ∧
  allowed_file (stem1 ++ "." ++ ext) = allowed_file (stem2 ++ "." ++ ext) ∧
  allowed_file "archive.tar.png" = Return true ∧
  allowed_file "photo.png.exe" = Return false.
Proof.
  intros Hext.
  assert (∀ stem, allowed_file (stem ++ "." ++ ext)
            = Return (bool_decide (PyStr.lower ext ∈ ALLOWED_EXTENSIONS))) as H.
  { intros stem. apply allowed_file_extension. split; [done|]. by exists stem. }
  split; [apply H|]. split; [by rewrite !H|].
  split; vm_compute; reflexivity.
Qed.

Lemma allowed_file_last_extension_witness :
  allowed_file ("archive.tar" ++ "." ++ "png")
    = Return (bool_decide (PyStr.lower "png" ∈ ALLOWED_EXTENSIONS)) ∧
  allowed_file ("archive.tar" ++ "." ++ "png") = allowed_file ("photo" ++ "." ++ "png") ∧
  allowed_file "archive.tar.png" = Return true ∧
  allowed_file "photo.png.exe" = Return false.
Proof.
  apply (allowed_file_last_extension "archive.tar" "photo" "png").
  reflexivity.
Defined.

(** ** [upload] *)

Lemma request_files_within (request : Request) :
  content_length request ≤ MAX_CONTENT_LENGTH →
  refused request = None →
  request_files request = Return (files request).
Proof.
  intros H Hacc. unfold request_files. rewrite Hacc.
  by destruct (Z.ltb_spec MAX_CONTENT_LENGTH (content_length request)); [lia|].
Qed.

Lemma request_files_refused (request : Request) (e : Exn) :
  content_length request ≤ MAX_CONTENT_LENGTH →
  refused request = Some e →
  request_files request = Raise e.
Proof.
  intros H Hacc. unfold request_files. rewrite Hacc.
  by destruct (Z.ltb_spec MAX_CONTENT_LENGTH (content_length request)); [lia|].
Qed.

Lemma request_files_too_large (request : Request) :
  MAX_CONTENT_LENGTH < content_length request →
  request_files request = Raise RequestEntityTooLarge.
Proof.
  intros H. unfold request_files.
  by destruct (Z.ltb_spec MAX_CONTENT_LENGTH (content_length request)); [|lia].
Qed.

Lemma file_field_absent (fs : gmap string FileStorage) :
  fs !! "file" = None → bool_decide ("file" ∉ dom fs) = true.
Proof. intros H. apply bool_decide_eq_true. by apply not_elem_of_dom. Qed.

Lemma file_field_present (fs : gmap string FileStorage) (file : FileStorage) :
  fs !! "file" = Some file → bool_decide ("file" ∉ dom fs) = false.
Proof.
  intros H. apply bool_decide_eq_false. intros Hn.
  apply not_elem_of_dom in Hn. congruence.
Qed.

(** The part of [upload] after validation. *)
Lemma upload_validated (cloudinary : Cloudinary) (request : Request)
    (file : FileStorage) (w : World) :
  content_length request ≤ MAX_CONTENT_LENGTH →
  refused request = None →
  files request !! "file" = Some file →
  filename file ≠ "" →
  allowed_file (filename file) = Return true →
  upload cloudinary request w =
    try_except
      (result ← uploader_upload cloudinary file upload_kwargs;
       logged ← lift (dict_getitem result "public_id");
       logger INFO [Lit "Imagen subida exitosamente: "; Interp logged];;
       url ← lift (dict_getitem result "secure_url");
       public_id ← lift (dict_getitem result "public_id");
       created_at ← lift (dict_getitem result "created_at");
       mret (jsonify {[ "success" := PBool true;
                        "url" := url;
                        "public_id" := public_id;
                        "created_at" := created_at ]}))
      (λ e,
         logger ERROR [Lit "Error al subir imagen: "; Lit (str e)];;
         mret (with_status (jsonify {[ "error" := PStr (str e) ]}) 500)) w.
Proof.
  intros Hlen Hacc Hfile Hname Hok.
  unfold upload, try_except at 1.
  unfold mbind at 1, M_bind at 1, lift at 1.
  rewrite (request_files_within _ Hlen Hacc), (file_field_present _ _ Hfile).
  unfold mbind at 1, M_bind at 1, lift at 1, files_getitem. rewrite Hfile.
  destruct (String.eqb_spec (filename file) "") as [|_]; [done|].
  unfold mbind at 1, M_bind at 1, lift at 1. rewrite Hok. simpl negb. cbv iota.
  reflexivity.
Qed.

(** C1.  An upload request within the body limit and accepted by the
    form parser whose [file] field is absent, whose file name is empty,
    whose file name has no dot, or whose extension (the part after the
    last dot, lowercased) is outside {png, jpg, jpeg, gif, webp} is
    answered with status 400 and a body [{error: string}]; the world is
    left as it was, so no provider call is made. *)
Theorem upload_rejects_invalid_file (cloudinary : Cloudinary)
    (request : Request) (w : World) :
  content_length request ≤ MAX_CONTENT_LENGTH →
  refused request = None →
  (files request !! "file" = None ∨
   ∃ file, files request !! "file" = Some file ∧
     (filename file = "" ∨
      PyStr.contains "." (filename file) = false ∨
      ∃ ext, has_extension (filename file) ext ∧
             PyStr.lower ext ∉ ALLOWED_EXTENSIONS)) →
  ∃ resp, upload cloudinary request w = (Return resp, w) ∧
          status resp = 400 ∧ error_body (body resp).
Proof.
  intros Hlen Hacc Hbad.
  unfold upload, try_except, mbind at 1, M_bind at 1, lift at 1.
  rewrite (request_files_within _ Hlen Hacc).
  destruct Hbad as [Hnone | (file & Hfile & Hname)].
  { rewrite (file_field_absent _ Hnone).
    eexists. split; [reflexivity|]. split; [done|]. by eexists. }
  rewrite (file_field_present _ _ Hfile).
  unfold mbind at 1, M_bind at 1, lift at 1, files_getitem. rewrite Hfile.
  destruct (String.eqb_spec (filename file) "") as [|Hne].
  { eexists. split; [reflexivity|]. split; [done|]. by eexists. }
  assert (allowed_file (filename file) = Return false) as Hrej.
  { destruct Hname as [?|[Hdot|(ext & Hext & Hout)]]; [done| |].
    - by apply allowed_file_no_dot.
    - rewrite (allowed_file_extension _ _ Hext).
      by rewrite bool_decide_eq_false_2. }
  unfold mbind at 1, M_bind at 1, lift at 1. rewrite Hrej. simpl negb. cbv iota.
  eexists. split; [reflexivity|]. split; [done|]. by eexists.
Qed.

Lemma upload_rejects_invalid_file_witness :
  ∃ resp, upload provider_ok (sample_request "document.pdf") world0
            = (Return resp, world0) ∧
          status resp = 400 ∧ error_body (body resp).
Proof.
  apply (upload_rejects_invalid_file provider_ok (sample_request "document.pdf") world0).
  - vm_compute. discriminate.
  - reflexivity.
  - right. exists (sample_file "document.pdf"). split; [reflexivity|].
    right. right. exists "pdf". split.
    + split; [reflexivity|]. by exists "document".
    + vm_compute. discriminate.
Defined.

Lemma allowed_file_valid (name ext : string) :
  has_extension name ext →
  PyStr.lower ext ∈ ALLOWED_EXTENSIONS →
  allowed_file name = Return true.
Proof.
  intros Hext Hin. rewrite (allowed_file_extension _ _ Hext).
  by rewrite bool_decide_eq_true_2.
Qed.

(** C2.  For an upload request within the body limit and accepted by
    the form parser whose file name has an extension that, lowercased,
    is in the allowed set, the view calls the provider's upload exactly
    once, whatever the provider answers: with the file, folder
    "capturas", resource type "auto" and the transformation
    [quality auto:good], [fetch_format auto]. *)
Theorem upload_calls_provider_once (cloudinary : Cloudinary)
    (request : Request) (file : FileStorage) (ext : string) (w : World) :
  content_length request ≤ MAX_CONTENT_LENGTH →
  refused request = None →
  files request !! "file" = Some file →
  has_extension (filename file) ext →
  PyStr.lower ext ∈ ALLOWED_EXTENSIONS →
  ∃ resp w', upload cloudinary request w = (Return resp, w') ∧
    calls w' = (calls w ++
      [CallUpload file
         {[ "folder" := PStr "capturas";
            "resource_type" := PStr "auto";
            "transformation" :=
              PList [ PDict {[ "quality" := PStr "auto:good" ]};
                      PDict {[ "fetch_format" := PStr "auto" ]} ] ]}])%list.
Proof.
  intros Hlen Hacc Hfile Hext Hin.
  rewrite (upload_validated cloudinary request file w Hlen Hacc Hfile
             (has_extension_nonempty _ _ Hext) (allowed_file_valid _ _ Hext Hin)).
  unfold try_except, uploader_upload, record_call, lift, logger, dict_getitem,
    mbind, M_bind, mret, M_ret.
  destruct (sdk_upload cloudinary file upload_kwargs) as [result|e]; simpl.
  - destruct (result !! "public_id"); simpl; [|by eauto].
    destruct (result !! "secure_url"); simpl; [|by eauto].
    destruct (result !! "created_at"); simpl; by eauto.
  - by eauto.
Qed.

Lemma upload_calls_provider_once_witness :
  ∃ resp w', upload provider_ok (sample_request "photo.JPG") world0 = (Return resp, w') ∧
    calls w' = (calls world0 ++
      [CallUpload (sample_file "photo.JPG")
         {[ "folder" := PStr "capturas";
            "resource_type" := PStr "auto";
            "transformation" :=
              PList [ PDict {[ "quality" := PStr "auto:good" ]};
                      PDict {[ "fetch_format" := PStr "auto" ]} ] ]}])%list.
Proof.
  apply (upload_calls_provider_once provider_ok (sample_request "photo.JPG")
           (sample_file "photo.JPG") "JPG" world0).
  - vm_compute. discriminate.
  - reflexivity.
  - reflexivity.
  - split; [reflexivity|]. by exists "photo".
  - vm_compute. reflexivity.
Defined.

(** C3.  For a valid upload on which the provider's call returns a
    response with [secure_url], [public_id] and [created_at], the view
    answers 200 with exactly [success] true and [url], [public_id],
    [created_at] equal to those three values, unchanged.  The hypotheses
    on the request say that the upload reaches the provider: they hold
    whenever the provider is called ([upload_called_only_when_valid]). *)
Theorem upload_returns_provider_fields (cloudinary : Cloudinary)
    (request : Request) (file : FileStorage) (ext : string) (w : World)
    (result : gmap string pyval) (secure_url public_id created_at : pyval) :
  content_length request ≤ MAX_CONTENT_LENGTH →
  refused request = None →
  files request !! "file" = Some file →
  has_extension (filename file) ext →
  PyStr.lower ext ∈ ALLOWED_EXTENSIONS →
  sdk_upload cloudinary file upload_kwargs = Return result →
  result !! "secure_url" = Some secure_url →
  result !! "public_id" = Some public_id →
  result !! "created_at" = Some created_at →
  ∃ w', upload cloudinary request w =
    (Return {| status := 200;
               body := PDict {[ "success" := PBool true;
                                "url" := secure_url;
                                "public_id" := public_id;
                                "created_at" := created_at ]} |}, w').
Proof.
  intros Hlen Hacc Hfile Hext Hin Hcall Hurl Hid Hat.
  rewrite (upload_validated cloudinary request file w Hlen Hacc Hfile
             (has_extension_nonempty _ _ Hext) (allowed_file_valid _ _ Hext Hin)).
  unfold try_except, uploader_upload, record_call, lift, logger, dict_getitem,
    mbind, M_bind, mret, M_ret.
  rewrite Hcall. simpl. rewrite Hid. simpl. rewrite Hurl. simpl. rewrite Hat. simpl.
  by eexists.
Qed.

Lemma upload_returns_provider_fields_witness :
  ∃ w', upload provider_ok (sample_request "photo.JPG") world0 =
    (Return {| status := 200;
               body := PDict {[ "success" := PBool true;
                                "url" := PStr "https://res.cloudinary.com/demo/image/upload/capturas/abc.jpg";
                                "public_id" := PStr "capturas/abc";
                                "created_at" := PStr "2024-05-01T10:00:00Z" ]} |}, w').
Proof.
  apply (upload_returns_provider_fields provider_ok (sample_request "photo.JPG")
           (sample_file "photo.JPG") "JPG" world0 sample_upload_result).
  - vm_compute. discriminate.
  - reflexivity.
  - reflexivity.
  - split; [reflexivity|]. by exists "photo".
  - vm_compute. reflexivity.
  - reflexivity.
  - reflexivity.
  - reflexivity.
  - reflexivity.
Defined.

(** C6.  For a valid upload on which the provider's call raises [e], the
    view answers 500 with the body [{error: str(e)}] and nothing else;
    the call was made once.  The hypotheses on the request say that
    the upload reaches the provider: they hold whenever the provider is
    called ([upload_called_only_when_valid]). *)
Theorem upload_provider_failure (cloudinary : Cloudinary)
    (request : Request) (file : FileStorage) (ext : string) (w : World) (e : Exn) :
  content_length request ≤ MAX_CONTENT_LENGTH →
  refused request = None →
  files request !! "file" = Some file →
  has_extension (filename file) ext →
  PyStr.lower ext ∈ ALLOWED_EXTENSIONS →
  sdk_upload cloudinary file upload_kwargs = Raise e →
  ∃ w', upload cloudinary request w =
          (Return {| status := 500; body := PDict {[ "error" := PStr (str e) ]} |}, w') ∧
        calls w' = (calls w ++ [CallUpload file upload_kwargs])%list.
Proof.
  intros Hlen Hacc Hfile Hext Hin Hcall.
  rewrite (upload_validated cloudinary request file w Hlen Hacc Hfile
             (has_extension_nonempty _ _ Hext) (allowed_file_valid _ _ Hext Hin)).
  unfold try_except, uploader_upload, record_call, lift, logger,
    mbind, M_bind, mret, M_ret.
  rewrite Hcall. simpl. by eexists.
Qed.

Lemma upload_provider_failure_witness :
  ∃ w', upload provider_down (sample_request "photo.JPG") world0 =
          (Return {| status := 500;
                     body := PDict {[ "error" := PStr "Connection refused" ]} |}, w') ∧
        calls w' = (calls world0 ++ [CallUpload (sample_file "photo.JPG") upload_kwargs])%list.
Proof.
  apply (upload_provider_failure provider_down (sample_request "photo.JPG")
           (sample_file "photo.JPG") "JPG" world0 (Error "Connection refused")).
  - vm_compute. discriminate.
  - reflexivity.
  - reflexivity.
  - split; [reflexivity|]. by exists "photo".
  - vm_compute. reflexivity.
  - reflexivity.
Defined.

(** ** The body limit *)

Lemma MAX_CONTENT_LENGTH_is_16MiB : MAX_CONTENT_LENGTH = 2 ^ 24.
Proof. reflexivity. Qed.

(** A body over the limit makes [request.files] raise inside the [try]
    of [upload]; the [except Exception] clause answers it like any other
    failure, and the exception never reaches the handler registered for
    413. *)
Lemma upload_too_large (cloudinary : Cloudinary) (request : Request) (w : World) :
  MAX_CONTENT_LENGTH < content_length request →
  upload cloudinary request w =
    (Return {| status := 500;
               body := PDict {[ "error" := PStr (str RequestEntityTooLarge) ]} |},
     {| calls := calls w;
        log := log w ++ [{| levelname := ERROR;
                            msg := [Lit "Error al subir imagen: ";
                                    Lit (str RequestEntityTooLarge)] |}] |}).
Proof.
  intros H. unfold upload, try_except, mbind at 1, M_bind at 1, lift at 1.
  by rewrite (request_files_too_large _ H).
Qed.

(** A body within the limit that the form parser refuses with [e] makes
    [request.files] raise [e] inside the [try] as well. *)
Lemma upload_refused (cloudinary : Cloudinary) (request : Request) (w : World) (e : Exn) :
  content_length request ≤ MAX_CONTENT_LENGTH →
  refused request = Some e →
  upload cloudinary request w =
    (Return {| status := 500; body := PDict {[ "error" := PStr (str e) ]} |},
     {| calls := calls w;
        log := log w ++ [{| levelname := ERROR;
                            msg := [Lit "Error al subir imagen: "; Lit (str e)] |}] |}).
Proof.
  intros Hlen Hacc. unfold upload, try_except, mbind at 1, M_bind at 1, lift at 1.
  by rewrite (request_files_refused _ e Hlen Hacc).
Qed.

(** Without the parser's acceptance the answer to a request without a
    [file] field is not always 400: a body of 1001 form fields and no
    file, within the limit, is refused by the parser and answered 500
    with the text of the 413 exception. *)
Lemma upload_missing_file_refused_body :
  content_length crowded_request_without_file ≤ MAX_CONTENT_LENGTH ∧
  files crowded_request_without_file !! "file" = None ∧
  (∃ w', upload provider_ok crowded_request_without_file world0 =
           (Return {| status := 500;
                      body := PDict {[ "error" :=
                        PStr "413 Request Entity Too Large: The data value transmitted exceeds the capacity limit." ]} |},
            w')) ∧
  ¬ (∃ resp w', upload provider_ok crowded_request_without_file world0 = (Return resp, w') ∧
                status resp = 400).
Proof.
  assert (upload provider_ok crowded_request_without_file world0 =
            (Return {| status := 500;
                       body := PDict {[ "error" := PStr (str RequestEntityTooLarge) ]} |},
             {| calls := [];
                log := [{| levelname := ERROR;
                           msg := [Lit "Error al subir imagen: ";
                                   Lit (str RequestEntityTooLarge)] |}] |})) as Hrun.
  { apply (upload_refused provider_ok crowded_request_without_file world0
             RequestEntityTooLarge); [by vm_compute|reflexivity]. }
  split; [by vm_compute|]. split; [reflexivity|]. split.
  - eexists. exact Hrun.
  - intros (resp & w' & Heq & Hst). rewrite Hrun in Heq.
    injection Heq as <- _. discriminate.
Qed.

(** Without the parser's acceptance a valid file name does not always
    reach the provider: the file photo.JPG followed by 1000 form fields,
    within the limit, is refused by the parser; the view answers 500 and
    the provider is not called. *)
Lemma upload_valid_file_refused_body :
  content_length (crowded_request "photo.JPG") ≤ MAX_CONTENT_LENGTH ∧
  files (crowded_request "photo.JPG") !! "file" = Some (sample_file "photo.JPG") ∧
  has_extension (filename (sample_file "photo.JPG")) "JPG" ∧
  PyStr.lower "JPG" ∈ ALLOWED_EXTENSIONS ∧
  (∃ resp w', upload provider_ok (crowded_request "photo.JPG") world0 = (Return resp, w') ∧
              status resp = 500 ∧ calls w' = []) ∧
  ¬ (∃ resp w' call, upload provider_ok (crowded_request "photo.JPG") world0 = (Return resp, w') ∧
                     calls w' = (calls world0 ++ [call])%list).
Proof.
  assert (upload provider_ok (crowded_request "photo.JPG") world0 =
            (Return {| status := 500;
                       body := PDict {[ "error" := PStr (str RequestEntityTooLarge) ]} |},
             {| calls := [];
                log := [{| levelname := ERROR;
                           msg := [Lit "Error al subir imagen: ";
                                   Lit (str RequestEntityTooLarge)] |}] |})) as Hrun.
  { apply (upload_refused provider_ok (crowded_request "photo.JPG") world0
             RequestEntityTooLarge); [by vm_compute|reflexivity]. }
  split; [by vm_compute|]. split; [reflexivity|].
  split; [split; [reflexivity|by exists "photo"]|].
  split; [by vm_compute|]. split.
  - eexists _, _. split; [exact Hrun|]. by split.
  - intros (resp & w' & call & Heq & Hcalls). rewrite Hrun in Heq.
    injection Heq as _ <-. discriminate.
Qed.

(** No view lets an exception escape: each one answers with a response. *)
Lemma upload_returns (cloudinary : Cloudinary) (request : Request) (w : World) :
  ∃ resp w', upload cloudinary request w = (Return resp, w').
Proof.
  unfold upload, try_except.
  match goal with |- context [match ?b w with _ => _ end] => destruct (b w) as [[resp|e] w'] end.
  - by eauto.
  - by eauto.
Qed.

(** C8.  A request to [/upload] with a body of 16 MiB + 1 bytes is
    answered by the view itself with status 500 and the text of the
    413 exception as error message, not with status 413 by
    [request_entity_too_large]; with a body of exactly 16 MiB the same
    request is served. *)
Theorem upload_over_limit_is_500 :
  let big := {| content_length := 16 * 1024 * 1024 + 1;
                files := {[ "file" := sample_file "photo.png" ]};
                refused := None |} in
  let fit := {| content_length := 16 * 1024 * 1024;
                files := {[ "file" := sample_file "photo.png" ]};
                refused := None |} in
  (∃ w', upload provider_ok big world0 =
           (Return {| status := 500;
                      body := PDict {[ "error" :=
                        PStr "413 Request Entity Too Large: The data value transmitted exceeds the capacity limit." ]} |},
            w') ∧ calls w' = []) ∧
  status (request_entity_too_large RequestEntityTooLarge) = 413 ∧
  (∃ resp w', upload provider_ok fit world0 = (Return resp, w') ∧ status resp = 200).
Proof.
  intros big fit. split; [|split].
  - eexists. split; [apply upload_too_large; by vm_compute|reflexivity].
  - reflexivity.
  - eexists _, _. split; [vm_compute; reflexivity|reflexivity].
Qed.

(** ** [list_images] *)

Section mapM_outcome.
Context {A B : Type} (f : A → outcome B).

Lemma mapM_Return (l : list A) (k : list B) :
  Forall2 (λ x y, f x = Return y) l k → mapM f l = Return k.
Proof.
  induction 1 as [|x y l k Hx _ IH]; [done|].
  cbn. rewrite Hx. cbn. rewrite IH. done.
Qed.

Lemma mapM_Return_inv (l : list A) (k : list B) :
  mapM f l = Return k → Forall2 (λ x y, f x = Return y) l k.
Proof.
  revert k. induction l as [|x l IH]; intros k; cbn.
  - intros [= <-]. constructor.
  - destruct (f x) as [y|e] eqn:Hx; cbn; [|done].
    destruct (mapM f l) as [k'|e]; cbn; [|done].
    intros [= <-]. constructor; [done|]. by apply IH.
Qed.

Lemma mapM_Raise (l : list A) :
  Exists (λ x, ∃ e, f x = Raise e) l → ∃ e, mapM f l = Raise e.
Proof.
  induction 1 as [x l [e Hx]|x l _ [e IH]]; cbn.
  - rewrite Hx. by eexists.
  - destruct (f x) as [y|e']; cbn; [|by eexists].
    rewrite IH. by eexists.
Qed.
End mapM_outcome.

Lemma image_summary_identified (d : gmap string pyval) (secure_url public_id : pyval) :
  d !! "secure_url" = Some secure_url →
  d !! "public_id" = Some public_id →
  image_summary (PDict d) =
    Return (PDict {[ "url" := secure_url;
                     "public_id" := public_id;
                     "created_at" := default (PStr "") (d !! "created_at");
                     "format" := default (PStr "") (d !! "format") ]}).
Proof.
  intros Hurl Hid. unfold image_summary, getitem, get, dict_getitem, dict_get.
  rewrite Hurl, Hid. cbn.
  by destruct (d !! "created_at"), (d !! "format").
Qed.

Lemma image_summary_unidentified (d : gmap string pyval) :
  d !! "secure_url" = None ∨ d !! "public_id" = None →
  ∃ e, image_summary (PDict d) = Raise e.
Proof.
  intros H. unfold image_summary, getitem, dict_getitem.
  destruct (d !! "secure_url"); cbn; [|by eexists].
  destruct H as [?|H]; [done|]. rewrite H. cbn. by eexists.
Qed.

(** [list_images] once the provider has answered with a list. *)
Lemma list_images_listed (cloudinary : Cloudinary) (w : World)
    (resources : gmap string pyval) (rs : list pyval) :
  sdk_resources cloudinary resources_kwargs = Return resources →
  resources !! "resources" = Some (PList rs) →
  list_images cloudinary w =
    let w1 := {| calls := calls w ++ [CallResources resources_kwargs]; log := log w |} in
    match mapM image_summary rs with
    | Return images =>
        (Return (jsonify {[ "success" := PBool true;
                            "images" := PList images;
                            "total" := PInt (Z.of_nat (List.length images)) ]}), w1)
    | Raise e =>
        (Return (with_status (jsonify {[ "error" := PStr (str e) ]}) 500),
         {| calls := calls w1;
            log := log w1 ++ [{| levelname := ERROR;
                                 msg := [Lit "Error al listar imágenes: "; Lit (str e)] |}] |})
    end.
Proof.
  intros Hcall Hlist.
  unfold list_images, try_except, api_resources, record_call, lift, logger,
    dict_getitem, mbind, M_bind, mret, M_ret.
  rewrite Hcall. cbn. rewrite Hlist. cbn.
  unfold mbind, outcome_bind.
  by destruct (mapM image_summary rs).
Qed.

Lemma summaries_of_identified (rs : list pyval) :
  Forall identified rs →
  ∃ images, mapM image_summary rs = Return images ∧ Forall2 summary_of rs images.
Proof.
  induction 1 as [|res rs (d & -> & [u Hu] & [p Hp]) _ (images & Hmap & Hall)].
  - exists []. by split; [|constructor].
  - eexists (_ :: images). split.
    + apply mapM_Return. constructor.
      * exact (image_summary_identified d u p Hu Hp).
      * by apply mapM_Return_inv.
    + constructor; [|done]. by exists d, u, p.
Qed.

(** Every listing is answered, either with 200 and a body whose [total]
    is the length of [images], or with 500 and an error body. *)
Lemma list_images_cases (cloudinary : Cloudinary) (w : World) :
  ∃ resp w', list_images cloudinary w = (Return resp, w') ∧
    ((status resp = 200 ∧
      ∃ images, body resp = PDict {[ "success" := PBool true;
                                     "images" := PList images;
                                     "total" := PInt (Z.of_nat (List.length images)) ]}) ∨
     (status resp = 500 ∧ error_body (body resp))).
Proof.
  unfold list_images, try_except, api_resources, record_call, lift, logger,
    dict_getitem, mbind, M_bind, mret, M_ret.
  destruct (sdk_resources cloudinary resources_kwargs) as [resources|e]; cbn.
  - destruct (resources !! "resources") as [listed|]; cbn.
    + unfold mbind, outcome_bind.
      destruct (iter listed) as [items|e]; cbn.
      * destruct (mapM image_summary items) as [images|e]; cbn.
        -- eexists _, _. split; [done|]. left. split; [done|]. by exists images.
        -- eexists _, _. split; [done|]. right. split; [done|]. by eexists.
      * eexists _, _. split; [done|]. right. split; [done|]. by eexists.
    + eexists _, _. split; [done|]. right. split; [done|]. by eexists.
  - eexists _, _. split; [done|]. right. split; [done|]. by eexists.
Qed.

(** C4.  When the provider answers the listing with resources that all
    carry [secure_url] and [public_id], the view answers 200 with
    exactly [success] true, [images] and [total], where [total] is the
    length of [images] and [images] has one entry per resource, the
    summary of that resource. *)
Theorem list_images_total (cloudinary : Cloudinary) (w : World)
    (resources : gmap string pyval) (rs : list pyval) :
  sdk_resources cloudinary resources_kwargs = Return resources →
  resources !! "resources" = Some (PList rs) →
  Forall identified rs →
  ∃ images w',
    list_images cloudinary w =
      (Return {| status := 200;
                 body := PDict {[ "success" := PBool true;
                                  "images" := PList images;
                                  "total" := PInt (Z.of_nat (List.length images)) ]} |},
       w') ∧
    List.length images = List.length rs ∧
    Forall2 summary_of rs images.
Proof.
  intros Hcall Hlist Hall.
  destruct (summaries_of_identified rs Hall) as (images & Hmap & Hsum).
  rewrite (list_images_listed cloudinary w resources rs Hcall Hlist). cbn zeta.
  rewrite Hmap. eexists images, _. split; [reflexivity|].
  split; [|done]. symmetry. by eapply Forall2_length.
Qed.

Lemma identified_sample_resources : Forall identified sample_resources.
Proof.
  repeat constructor; (eexists; split; [reflexivity|]; split; by eexists).
Qed.

Lemma list_images_total_witness :
  ∃ images w',
    list_images provider_ok world0 =
      (Return {| status := 200;
                 body := PDict {[ "success" := PBool true;
                                  "images" := PList images;
                                  "total" := PInt (Z.of_nat (List.length images)) ]} |},
       w') ∧
    List.length images = List.length sample_resources ∧
    Forall2 summary_of sample_resources images.
Proof.
  apply (list_images_total provider_ok world0
           {[ "resources" := PList sample_resources ]} sample_resources).
  - reflexivity.
  - reflexivity.
  - apply identified_sample_resources.
Defined.

(** C7.  Under the same conditions, the entries of [images] are the
    summaries of the provider's resources, in order: [url] and
    [public_id] are the resource's [secure_url] and [public_id], and
    [created_at] and [format] are the resource's own or, when absent,
    the empty string. *)
Theorem list_images_projection (cloudinary : Cloudinary) (w : World)
    (resources : gmap string pyval) (rs : list pyval) :
  sdk_resources cloudinary resources_kwargs = Return resources →
  resources !! "resources" = Some (PList rs) →
  Forall identified rs →
  ∃ images total w',
    list_images cloudinary w =
      (Return {| status := 200;
                 body := PDict {[ "success" := PBool true;
                                  "images" := PList images;
                                  "total" := total ]} |}, w') ∧
    Forall2 summary_of rs images.
Proof.
  intros Hcall Hlist Hall.
  destruct (summaries_of_identified rs Hall) as (images & Hmap & Hsum).
  rewrite (list_images_listed cloudinary w resources rs Hcall Hlist). cbn zeta.
  rewrite Hmap. eexists images, _, _. by split.
Qed.

Lemma list_images_projection_witness :
  ∃ images total w',
    list_images provider_ok world0 =
      (Return {| status := 200;
                 body := PDict {[ "success" := PBool true;
                                  "images" := PList images;
                                  "total" := total ]} |}, w') ∧
    Forall2 summary_of sample_resources images.
Proof.
  apply (list_images_projection provider_ok world0
           {[ "resources" := PList sample_resources ]} sample_resources).
  - reflexivity.
  - reflexivity.
  - apply identified_sample_resources.
Defined.

(** The summary of a resource with neither [created_at] nor [format]. *)
Example image_summary_defaults :
  image_summary (PDict {[ "secure_url" := PStr "https://res.cloudinary.com/demo/b";
                          "public_id" := PStr "capturas/b" ]})
  = Return (PDict {[ "url" := PStr "https://res.cloudinary.com/demo/b";
                     "public_id" := PStr "capturas/b";
                     "created_at" := PStr "";
                     "format" := PStr "" ]}).
Proof. vm_compute. reflexivity. Qed.

(** C10.  When some resource of the provider's listing lacks
    [secure_url] or [public_id], the view answers 500 with a body
    [{error: string}] and nothing else: no list is returned. *)
Theorem list_images_missing_field (cloudinary : Cloudinary) (w : World)
    (resources : gmap string pyval) (rs : list pyval) :
  sdk_resources cloudinary resources_kwargs = Return resources →
  resources !! "resources" = Some (PList rs) →
  Exists unidentified rs →
  ∃ resp w', list_images cloudinary w = (Return resp, w') ∧
             status resp = 500 ∧ error_body (body resp).
Proof.
  intros Hcall Hlist Hex.
  destruct (mapM_Raise image_summary rs) as [e He].
  { eapply Exists_impl; [exact Hex|].
    intros res (d & -> & Hd). by apply image_summary_unidentified. }
  rewrite (list_images_listed cloudinary w resources rs Hcall Hlist). cbn zeta.
  rewrite He. eexists _, _. split; [reflexivity|]. split; [done|]. by eexists.
Qed.

Lemma list_images_missing_field_witness :
  ∃ resp w', list_images provider_odd world0 = (Return resp, w') ∧
             status resp = 500 ∧ error_body (body resp).
Proof.
  apply (list_images_missing_field provider_odd world0
           {[ "resources" :=
                PList (sample_resources ++ [PDict {[ "public_id" := PStr "capturas/c" ]}]) ]}
           (sample_resources ++ [PDict {[ "public_id" := PStr "capturas/c" ]}])).
  - reflexivity.
  - reflexivity.
  - apply Exists_app. right. constructor.
    eexists. split; [reflexivity|]. left. reflexivity.
Defined.

(** ** [delete_image] *)

Lemma eq_str_ok (result : gmap string pyval) :
  result !! "result" = Some (PStr "ok") →
  eq_str (dict_get result "result" PNone) "ok" = true.
Proof. intros H. unfold dict_get. by rewrite H. Qed.

Lemma eq_str_not_ok (result : gmap string pyval) :
  result !! "result" ≠ Some (PStr "ok") →
  eq_str (dict_get result "result" PNone) "ok" = false.
Proof.
  intros H. unfold dict_get.
  destruct (result !! "result") as [[| | |s| |]|]; try done.
  cbn. destruct (String.eqb_spec s "ok") as [->|]; done.
Qed.

(** C5.  For every delete request: when the provider's answer has
    [result] equal to "ok", the view answers 200 with [success] true and
    a message; when the provider answers anything else, it answers 400
    with a body [{error: string}]; when the provider's call raises, it
    answers 500 with a body [{error: string}]. *)
Theorem delete_image_status (cloudinary : Cloudinary) (public_id : string) (w : World) :
  (∀ result,
     sdk_destroy cloudinary public_id = Return result →
     result !! "result" = Some (PStr "ok") →
     ∃ w', delete_image cloudinary public_id w =
       (Return {| status := 200;
                  body := PDict {[ "success" := PBool true;
                                   "message" := PStr "Imagen eliminada" ]} |}, w')) ∧
  (∀ result,
     sdk_destroy cloudinary public_id = Return result →
     result !! "result" ≠ Some (PStr "ok") →
     ∃ resp w', delete_image cloudinary public_id w = (Return resp, w') ∧
                status resp = 400 ∧ error_body (body resp)) ∧
  (∀ e,
     sdk_destroy cloudinary public_id = Raise e →
     ∃ resp w', delete_image cloudinary public_id w = (Return resp, w') ∧
                status resp = 500 ∧ error_body (body resp)).
Proof.
  unfold delete_image, try_except, uploader_destroy, record_call, lift, logger,
    mbind, M_bind, mret, M_ret.
  split; [|split].
  - intros result Hcall Hok. rewrite Hcall. cbn.
    rewrite (eq_str_ok _ Hok). by eexists.
  - intros result Hcall Hno. rewrite Hcall. cbn.
    rewrite (eq_str_not_ok _ Hno).
    eexists _, _. split; [reflexivity|]. split; [done|]. by eexists.
  - intros e Hcall. rewrite Hcall. cbn.
    eexists _, _. split; [reflexivity|]. split; [done|]. by eexists.
Qed.

Lemma delete_image_status_witness :
  (∃ w', delete_image provider_ok "capturas/xyz123" world0 =
     (Return {| status := 200;
                body := PDict {[ "success" := PBool true;
                                 "message" := PStr "Imagen eliminada" ]} |}, w')) ∧
  (∃ resp w', delete_image provider_odd "capturas/xyz123" world0 = (Return resp, w') ∧
              status resp = 400 ∧ error_body (body resp)) ∧
  (∃ resp w', delete_image provider_down "capturas/xyz123" world0 = (Return resp, w') ∧
              status resp = 500 ∧ error_body (body resp)).
Proof.
  split; [|split].
  - apply (proj1 (delete_image_status provider_ok "capturas/xyz123" world0)
             {[ "result" := PStr "ok" ]}); reflexivity.
  - apply (proj1 (proj2 (delete_image_status provider_odd "capturas/xyz123" world0))
             {[ "result" := PStr "not found" ]}); [reflexivity|].
    vm_compute. discriminate.
  - apply (proj2 (proj2 (delete_image_status provider_down "capturas/xyz123" world0))
             (Error "Connection refused")). reflexivity.
Defined.

(** * Further properties *)

(** ** File names *)

Lemma lower_ascii_dot (a : ascii) :
  Ascii.eqb (PyStr.lower_ascii a) "." = Ascii.eqb a ".".
Proof. by destruct a as [[] [] [] [] [] [] [] []]. Qed.

Lemma lower_ascii_idemp (a : ascii) :
  PyStr.lower_ascii (PyStr.lower_ascii a) = PyStr.lower_ascii a.
Proof. by destruct a as [[] [] [] [] [] [] [] []]. Qed.

Lemma lower_idemp (s : string) : PyStr.lower (PyStr.lower s) = PyStr.lower s.
Proof.
  induction s as [|a s IH]; cbn [PyStr.lower]; [done|].
  by rewrite lower_ascii_idemp, IH.
Qed.

Lemma contains_dot_lower (s : string) :
  PyStr.contains "." (PyStr.lower s) = PyStr.contains "." s.
Proof.
  induction s as [|a s IH]; cbn [PyStr.lower PyStr.contains]; [done|].
  by rewrite lower_ascii_dot, IH.
Qed.

Lemma rsplit1_dot_lower (s : string) :
  PyStr.rsplit1 "." (PyStr.lower s) = PyStr.lower <$> PyStr.rsplit1 "." s.
Proof.
  induction s as [|a s IH]; cbn [PyStr.lower PyStr.rsplit1]; [done|].
  rewrite IH, lower_ascii_dot.
  destruct (PyStr.rsplit1 "." s) as [|h [|t [|]]]; cbn;
    by destruct (Ascii.eqb a ".").
Qed.

(** X1.  [allowed_file] never raises: the subscript [[1]] of the split
    name is evaluated only when the name has a dot, and then the split
    has two pieces. *)
Theorem allowed_file_never_raises (name : string) :
  ∃ verdict : bool, allowed_file name = Return verdict.
Proof. apply allowed_file_returns. Qed.

Lemma allowed_file_true_iff (name : string) :
  allowed_file name = Return true ↔
  ∃ ext, has_extension name ext ∧ PyStr.lower ext ∈ ALLOWED_EXTENSIONS.
Proof.
  split.
  - intros Hok. destruct (PyStr.contains "." name) eqn:Hdot.
    + destruct (contains_split _ _ Hdot) as (stem & ext & -> & Hext).
      assert (has_extension (stem ++ String "." ext) ext) as Hhas.
      { split; [done|]. by exists stem. }
      exists ext. split; [done|].
      rewrite (allowed_file_extension _ _ Hhas) in Hok.
      injection Hok as Hok. by apply bool_decide_eq_true in Hok.
    + rewrite (allowed_file_no_dot _ Hdot) in Hok. discriminate.
  - intros (ext & Hhas & Hin). by eapply allowed_file_valid.
Qed.

(** X2.  [allowed_file] accepts exactly the names that end in a dot
    followed by a dot-free extension which, lowercased, is one of png,
    jpg, jpeg, gif, webp. *)
Theorem allowed_file_accepts_iff (name : string) :
  allowed_file name = Return true ↔
  ∃ ext, has_extension name ext ∧ PyStr.lower ext ∈ ALLOWED_EXTENSIONS.
Proof. apply allowed_file_true_iff. Qed.

Lemma allowed_file_lower (name : string) :
  allowed_file (PyStr.lower name) = allowed_file name.
Proof.
  unfold allowed_file. rewrite contains_dot_lower, rsplit1_dot_lower.
  destruct (PyStr.contains "." name); [|done].
  unfold item1. rewrite list_lookup_fmap.
  destruct (PyStr.rsplit1 "." name !! 1%nat) as [ext|]; cbn; [|done].
  by rewrite lower_idemp.
Qed.

(** X3.  The verdict of [allowed_file] does not depend on the case of
    the ASCII letters of the name: two names that differ only there
    (that is, that are equal once their ASCII letters are lowered) get
    the same verdict. *)
Theorem allowed_file_ignores_case (name1 name2 : string) :
  PyStr.lower name1 = PyStr.lower name2 →
  allowed_file name1 = allowed_file name2.
Proof.
  intros Hsame.
  rewrite <- (allowed_file_lower name1), <- (allowed_file_lower name2).
  by rewrite Hsame.
Qed.

Lemma allowed_file_ignores_case_witness :
  allowed_file "Foto.Jpeg" = allowed_file "FOTO.jPEG".
Proof. apply (allowed_file_ignores_case "Foto.Jpeg" "FOTO.jPEG"). reflexivity. Defined.

(** X4.  Splitting a name with a dot at its last dot loses nothing: the
    split has exactly two pieces, the second has no dot, and the two
    joined by a dot are the name again. *)
Theorem rsplit1_rejoin (sep : ascii) (s : string) :
  PyStr.contains sep s = true →
  ∃ head tail, PyStr.rsplit1 sep s = [head; tail] ∧
               PyStr.contains sep tail = false ∧
               s = head ++ String sep tail.
Proof.
  intros H. destruct (contains_split _ _ H) as (stem & ext & -> & Hext).
  exists stem, ext. by rewrite (rsplit1_last _ _ _ Hext).
Qed.

Lemma rsplit1_rejoin_witness :
  ∃ head tail, PyStr.rsplit1 "." "archive.tar.png" = [head; tail] ∧
               PyStr.contains "." tail = false ∧
               "archive.tar.png" = head ++ String "." tail.
Proof. apply (rsplit1_rejoin "." "archive.tar.png"). reflexivity. Defined.

(** ** [upload], case by case *)

Section upload_cases.
Context (cloudinary : Cloudinary) (request : Request) (w : World).
Hypothesis within : content_length request ≤ MAX_CONTENT_LENGTH.
Hypothesis accepted : refused request = None.

Lemma upload_no_field :
  files request !! "file" = None →
  upload cloudinary request w =
    (Return {| status := 400;
               body := PDict {[ "error" := PStr "No se encontró el archivo" ]} |}, w).
Proof.
  intros Hnone. unfold upload, try_except, mbind at 1, M_bind at 1, lift at 1.
  by rewrite (request_files_within _ within accepted), (file_field_absent _ Hnone).
Qed.

Lemma upload_empty_name (file : FileStorage) :
  files request !! "file" = Some file →
  filename file = "" →
  upload cloudinary request w =
    (Return {| status := 400;
               body := PDict {[ "error" := PStr "Nombre de archivo vacío" ]} |}, w).
Proof.
  intros Hfile Hname. unfold upload, try_except, mbind at 1, M_bind at 1, lift at 1.
  rewrite (request_files_within _ within accepted), (file_field_present _ _ Hfile).
  unfold mbind at 1, M_bind at 1, lift at 1, files_getitem. rewrite Hfile, Hname.
  reflexivity.
Qed.

Lemma upload_bad_type (file : FileStorage) :
  files request !! "file" = Some file →
  filename file ≠ "" →
  allowed_file (filename file) = Return false →
  upload cloudinary request w =
    (Return {| status := 400;
               body := PDict {[ "error" := PStr "Tipo de archivo no permitido" ]} |}, w).
Proof.
  intros Hfile Hname Hrej. unfold upload, try_except, mbind at 1, M_bind at 1, lift at 1.
  rewrite (request_files_within _ within accepted), (file_field_present _ _ Hfile).
  unfold mbind at 1, M_bind at 1, lift at 1, files_getitem. rewrite Hfile.
  destruct (String.eqb_spec (filename file) "") as [|_]; [done|].
  unfold mbind at 1, M_bind at 1, lift at 1. by rewrite Hrej.
Qed.

(** What [upload] does with a file that passed validation, by the
    answer of the provider. *)
Lemma upload_forwarded (file : FileStorage) :
  files request !! "file" = Some file →
  filename file ≠ "" →
  allowed_file (filename file) = Return true →
  upload cloudinary request w =
    let w1 := after_call (CallUpload file upload_kwargs) w in
    match sdk_upload cloudinary file upload_kwargs with
    | Raise e => failure "Error al subir imagen: " e w1
    | Return result =>
        match result !! "public_id" with
        | None => failure "Error al subir imagen: " (KeyError "public_id") w1
        | Some public_id =>
            let w2 := after_log INFO [Lit "Imagen subida exitosamente: ";
                                      Interp public_id] w1 in
            match result !! "secure_url" with
            | None => failure "Error al subir imagen: " (KeyError "secure_url") w2
            | Some secure_url =>
                match result !! "created_at" with
                | None => failure "Error al subir imagen: " (KeyError "created_at") w2
                | Some created_at =>
                    (Return {| status := 200;
                               body := PDict {[ "success" := PBool true;
                                                "url" := secure_url;
                                                "public_id" := public_id;
                                                "created_at" := created_at ]} |}, w2)
                end
            end
        end
    end.
Proof.
  intros Hfile Hname Hok.
  rewrite (upload_validated cloudinary request file w within accepted Hfile Hname Hok).
  unfold try_except, uploader_upload, record_call, lift, logger, dict_getitem,
    mbind, M_bind, mret, M_ret, failure, after_log, after_call.
  destruct (sdk_upload cloudinary file upload_kwargs) as [result|e]; cbn; [|done].
  destruct (result !! "public_id"); cbn; [|done].
  destruct (result !! "secure_url"); cbn; [|done].
  by destruct (result !! "created_at").
Qed.

End upload_cases.

Ltac upload_by_cases c request w :=
  destruct (Z.le_gt_cases (content_length request) MAX_CONTENT_LENGTH) as [Hin|Hout];
  [ destruct (refused request) as [refusal|] eqn:Hacc;
    [ rewrite (upload_refused c request w refusal Hin Hacc)
    | destruct (files request !! "file") as [file|] eqn:Hfile;
      [ destruct (String.eqb_spec (filename file) "") as [Hname|Hname];
        [ rewrite (upload_empty_name c request w Hin Hacc file Hfile Hname)
        | destruct (allowed_file_returns (filename file)) as [[] Hok];
          [ rewrite (upload_forwarded c request w Hin Hacc file Hfile Hname Hok); cbn zeta;
            destruct (sdk_upload c file upload_kwargs) as [result|e];
            [ destruct (result !! "public_id") as [pid|] eqn:Hpid;
              [ destruct (result !! "secure_url") as [url|] eqn:Hurl;
                [ destruct (result !! "created_at") as [cat|] eqn:Hcat |] |] |]
          | rewrite (upload_bad_type c request w Hin Hacc file Hfile Hname Hok) ] ]
      | rewrite (upload_no_field c request w Hin Hacc Hfile) ] ]
  | rewrite (upload_too_large c request w Hout) ].

(** The provider is called by [upload] only for a body within the limit
    that the form parser accepted, and only with the file of the [file]
    field, whose name is not empty and passed [allowed_file]. *)
Lemma upload_called_only_when_valid (cloudinary : Cloudinary) (request : Request)
    (w w' : World) (resp : Response) (call : ProviderCall) :
  upload cloudinary request w = (Return resp, w') →
  calls w' = (calls w ++ [call])%list →
  content_length request ≤ MAX_CONTENT_LENGTH ∧
  refused request = None ∧
  ∃ file, files request !! "file" = Some file ∧
          call = CallUpload file upload_kwargs ∧
          filename file ≠ "" ∧
          allowed_file (filename file) = Return true.
Proof.
  upload_by_cases cloudinary request w; unfold failure, after_log, after_call;
    intros [= <- <-] Hcalls; cbn in Hcalls.
  all: try (apply (f_equal List.length) in Hcalls; rewrite length_app in Hcalls;
            cbn in Hcalls; lia).
  all: apply app_inv_head in Hcalls; injection Hcalls as <-;
    split; [done|]; split; [done|]; by exists file.
Qed.

(** X5.  For a body within the limit that the form parser accepts, the
    three refusals of [upload] name their cause: no [file] field, an
    empty file name, and a non-empty name that is not accepted each get
    400 with their own message, and leave the world as it was. *)
Theorem upload_error_messages (cloudinary : Cloudinary) (request : Request) (w : World) :
  content_length request ≤ MAX_CONTENT_LENGTH →
  refused request = None →
  (files request !! "file" = None →
   upload cloudinary request w =
     (Return {| status := 400;
                body := PDict {[ "error" := PStr "No se encontró el archivo" ]} |}, w)) ∧
  (∀ file, files request !! "file" = Some file → filename file = "" →
   upload cloudinary request w =
     (Return {| status := 400;
                body := PDict {[ "error" := PStr "Nombre de archivo vacío" ]} |}, w)) ∧
  (∀ file, files request !! "file" = Some file → filename file ≠ "" →
   (¬ ∃ ext, has_extension (filename file) ext ∧ PyStr.lower ext ∈ ALLOWED_EXTENSIONS) →
   upload cloudinary request w =
     (Return {| status := 400;
                body := PDict {[ "error" := PStr "Tipo de archivo no permitido" ]} |}, w)).
Proof.
  intros Hin Hacc. split; [|split].
  - by apply upload_no_field.
  - intros file. by apply upload_empty_name.
  - intros file Hfile Hname Hno. apply (upload_bad_type _ _ _ Hin Hacc file Hfile Hname).
    destruct (allowed_file_returns (filename file)) as [[] Hok]; [|done].
    destruct Hno. by apply allowed_file_true_iff.
Qed.

Lemma upload_error_messages_witness :
  upload provider_ok {| content_length := 10; files := ∅; refused := None |} world0 =
    (Return {| status := 400;
               body := PDict {[ "error" := PStr "No se encontró el archivo" ]} |}, world0) ∧
  upload provider_ok (sample_request "") world0 =
    (Return {| status := 400;
               body := PDict {[ "error" := PStr "Nombre de archivo vacío" ]} |}, world0) ∧
  upload provider_ok (sample_request "notes.txt") world0 =
    (Return {| status := 400;
               body := PDict {[ "error" := PStr "Tipo de archivo no permitido" ]} |}, world0).
Proof.
  split; [|split].
  - apply (upload_error_messages provider_ok
             {| content_length := 10; files := ∅; refused := None |} world0).
    + vm_compute. discriminate.
    + reflexivity.
    + reflexivity.
  - apply (proj1 (proj2 (upload_error_messages provider_ok (sample_request "") world0
                           ltac:(vm_compute; discriminate) eq_refl))
             (sample_file "")); reflexivity.
  - apply (proj2 (proj2 (upload_error_messages provider_ok (sample_request "notes.txt") world0
                           ltac:(vm_compute; discriminate) eq_refl))
             (sample_file "notes.txt")).
    + reflexivity.
    + discriminate.
    + intros Hyes. apply allowed_file_true_iff in Hyes. vm_compute in Hyes. discriminate.
Defined.

(** X6.  [upload] answers every request: with 200 and a body
    [{success: true, url, public_id, created_at}], with 400 and an error
    body and the world untouched, or with 500 and an error body.  No
    exception leaves the view. *)
Theorem upload_always_answers (cloudinary : Cloudinary) (request : Request) (w : World) :
  ∃ resp w', upload cloudinary request w = (Return resp, w') ∧
    ((status resp = 200 ∧
      ∃ url public_id created_at,
        body resp = PDict {[ "success" := PBool true;
                             "url" := url;
                             "public_id" := public_id;
                             "created_at" := created_at ]}) ∨
     (status resp = 400 ∧ error_body (body resp) ∧ w' = w) ∨
     (status resp = 500 ∧ error_body (body resp))).
Proof.
  upload_by_cases cloudinary request w; unfold failure;
    eexists _, _; (split; [reflexivity|]).
  all: first
    [ by (right; left; split; [done|]; split; [by eexists|done])
    | by (right; right; split; [done|]; by eexists)
    | by (left; split; [done|]; by eexists _, _, _) ].
Qed.

(** X7.  The log of [upload]: a 200 adds one INFO record naming the
    [public_id] sent back; a 400 adds nothing; a 500 ends the log with
    one ERROR record carrying the very text sent back as error. *)
Theorem upload_logging (cloudinary : Cloudinary) (request : Request) (w : World) :
  ∃ resp w', upload cloudinary request w = (Return resp, w') ∧
    ((status resp = 200 ∧
      ∃ url public_id created_at,
        body resp = PDict {[ "success" := PBool true;
                             "url" := url;
                             "public_id" := public_id;
                             "created_at" := created_at ]} ∧
        log w' = (log w ++ [{| levelname := INFO;
                               msg := [Lit "Imagen subida exitosamente: ";
                                       Interp public_id] |}])%list) ∨
     (status resp = 400 ∧ log w' = log w) ∨
     (status resp = 500 ∧
      ∃ text before,
        body resp = PDict {[ "error" := PStr text ]} ∧
        log w' = (before ++ [{| levelname := ERROR;
                                msg := [Lit "Error al subir imagen: "; Lit text] |}])%list)).
Proof.
  upload_by_cases cloudinary request w; unfold failure;
    eexists _, _; (split; [reflexivity|]).
  all: first
    [ by (right; left)
    | by (right; right; split; [done|]; eexists _, _)
    | by (left; split; [done|]; eexists _, _, _) ].
Qed.

(** X8.  [upload] calls the provider at most once, and only to upload
    the file of the [file] field with the fixed keyword arguments: it
    never lists and never deletes. *)
Theorem upload_at_most_one_call (cloudinary : Cloudinary) (request : Request) (w : World) :
  ∃ resp w', upload cloudinary request w = (Return resp, w') ∧
    (calls w' = calls w ∨
     ∃ file, files request !! "file" = Some file ∧
             calls w' = (calls w ++ [CallUpload file upload_kwargs])%list).
Proof.
  upload_by_cases cloudinary request w; unfold failure;
    eexists _, _; (split; [reflexivity|]).
  all: first [ by left | by (right; exists file) ].
Qed.

(** X9.  When a valid upload reaches the provider (the body is within
    the limit and accepted by the form parser) and the provider accepts
    it but its response lacks [public_id], [secure_url] or [created_at],
    the view answers 500 and the error text is the quoted name of a
    missing key; the file has been sent to the provider all the same. *)
Theorem upload_malformed_response (cloudinary : Cloudinary)
    (request : Request) (file : FileStorage) (ext : string) (w : World)
    (result : gmap string pyval) :
  content_length request ≤ MAX_CONTENT_LENGTH →
  refused request = None →
  files request !! "file" = Some file →
  has_extension (filename file) ext →
  PyStr.lower ext ∈ ALLOWED_EXTENSIONS →
  sdk_upload cloudinary file upload_kwargs = Return result →
  result !! "public_id" = None ∨ result !! "secure_url" = None ∨
    result !! "created_at" = None →
  ∃ key w',
    upload cloudinary request w =
      (Return {| status := 500;
                 body := PDict {[ "error" := PStr ("'" ++ key ++ "'") ]} |}, w') ∧
    key ∈ ["public_id"; "secure_url"; "created_at"] ∧
    result !! key = None ∧
    calls w' = (calls w ++ [CallUpload file upload_kwargs])%list.
Proof.
  intros Hin Hacc Hfile Hext Hallowed Hcall Hmiss.
  rewrite (upload_forwarded cloudinary request w Hin Hacc file Hfile
             (has_extension_nonempty _ _ Hext) (allowed_file_valid _ _ Hext Hallowed)).
  cbn zeta. rewrite Hcall. unfold failure.
  destruct (result !! "public_id") eqn:Hpid.
  - destruct (result !! "secure_url") eqn:Hurl.
    + destruct (result !! "created_at") eqn:Hcat; [by destruct Hmiss as [|[|]]|].
      exists "created_at". eexists. split; [reflexivity|].
      split; [apply list_elem_of_In; cbn; tauto|]. by split.
    + exists "secure_url". eexists. split; [reflexivity|].
      split; [apply list_elem_of_In; cbn; tauto|]. by split.
  - exists "public_id". eexists. split; [reflexivity|].
    split; [apply list_elem_of_In; cbn; tauto|]. by split.
Qed.

Lemma upload_malformed_response_witness :
  ∃ key w',
    upload provider_odd (sample_request "photo.JPG") world0 =
      (Return {| status := 500;
                 body := PDict {[ "error" := PStr ("'" ++ key ++ "'") ]} |}, w') ∧
    key ∈ ["public_id"; "secure_url"; "created_at"] ∧
    ({[ "public_id" := PStr "capturas/abc" ]} : gmap string pyval) !! key = None ∧
    calls w' = (calls world0 ++ [CallUpload (sample_file "photo.JPG") upload_kwargs])%list.
Proof.
  apply (upload_malformed_response provider_odd (sample_request "photo.JPG")
           (sample_file "photo.JPG") "JPG" world0 {[ "public_id" := PStr "capturas/abc" ]}).
  - vm_compute. discriminate.
  - reflexivity.
  - reflexivity.
  - split; [reflexivity|]. by exists "photo".
  - vm_compute. reflexivity.
  - reflexivity.
  - right. left. reflexivity.
Defined.

(** X10.  When a valid upload reaches the provider (the body is within
    the limit and accepted by the form parser) and the provider's
    response has a [public_id] but lacks [secure_url] or [created_at],
    the log first records the upload as successful and then records the
    error: the success record is written before the response is
    built. *)
Theorem upload_logs_success_before_failure (cloudinary : Cloudinary)
    (request : Request) (file : FileStorage) (ext : string) (w : World)
    (result : gmap string pyval) (public_id : pyval) :
  content_length request ≤ MAX_CONTENT_LENGTH →
  refused request = None →
  files request !! "file" = Some file →
  has_extension (filename file) ext →
  PyStr.lower ext ∈ ALLOWED_EXTENSIONS →
  sdk_upload cloudinary file upload_kwargs = Return result →
  result !! "public_id" = Some public_id →
  result !! "secure_url" = None ∨ result !! "created_at" = None →
  ∃ resp w' text,
    upload cloudinary request w = (Return resp, w') ∧
    status resp = 500 ∧
    log w' = (log w ++
      [ {| levelname := INFO;
           msg := [Lit "Imagen subida exitosamente: "; Interp public_id] |};
        {| levelname := ERROR;
           msg := [Lit "Error al subir imagen: "; Lit text] |} ])%list.
Proof.
  intros Hin Hacc Hfile Hext Hallowed Hcall Hpid Hmiss.
  rewrite (upload_forwarded cloudinary request w Hin Hacc file Hfile
             (has_extension_nonempty _ _ Hext) (allowed_file_valid _ _ Hext Hallowed)).
  cbn zeta. rewrite Hcall, Hpid. unfold failure, after_log, after_call. cbn.
  destruct (result !! "secure_url") eqn:Hurl.
  - destruct (result !! "created_at") eqn:Hcat; [by destruct Hmiss|].
    eexists _, _, _. split; [reflexivity|]. split; [done|]. cbn.
    by rewrite <- app_assoc.
  - eexists _, _, _. split; [reflexivity|]. split; [done|]. cbn.
    by rewrite <- app_assoc.
Qed.

Lemma upload_logs_success_before_failure_witness :
  ∃ resp w' text,
    upload provider_odd (sample_request "photo.JPG") world0 = (Return resp, w') ∧
    status resp = 500 ∧
    log w' = (log world0 ++
      [ {| levelname := INFO;
           msg := [Lit "Imagen subida exitosamente: "; Interp (PStr "capturas/abc")] |};
        {| levelname := ERROR;
           msg := [Lit "Error al subir imagen: "; Lit text] |} ])%list.
Proof.
  apply (upload_logs_success_before_failure provider_odd (sample_request "photo.JPG")
           (sample_file "photo.JPG") "JPG" world0 {[ "public_id" := PStr "capturas/abc" ]}).
  - vm_compute. discriminate.
  - reflexivity.
  - reflexivity.
  - split; [reflexivity|]. by exists "photo".
  - vm_compute. reflexivity.
  - reflexivity.
  - reflexivity.
  - left. reflexivity.
Defined.

(** X12.  An upload whose declared length exceeds 16 MiB is answered 500
    with the text of the 413 exception, whatever its files and whatever
    the provider: the name is not validated, the provider is not called,
    and one ERROR record is written. *)
Theorem upload_over_limit (cloudinary : Cloudinary) (request : Request) (w : World) :
  16 * 1024 * 1024 < content_length request →
  ∃ w',
    upload cloudinary request w =
      (Return {| status := 500;
                 body := PDict {[ "error" :=
                   PStr "413 Request Entity Too Large: The data value transmitted exceeds the capacity limit." ]} |},
       w') ∧
    calls w' = calls w ∧
    log w' = (log w ++
      [{| levelname := ERROR;
          msg := [Lit "Error al subir imagen: ";
                  Lit "413 Request Entity Too Large: The data value transmitted exceeds the capacity limit."] |}])%list.
Proof.
  intros Hout. rewrite (upload_too_large cloudinary request w Hout).
  by eexists.
Qed.

Lemma upload_over_limit_witness :
  ∃ w',
    upload provider_ok {| content_length := 20000000; files := ∅; refused := None |} world0 =
      (Return {| status := 500;
                 body := PDict {[ "error" :=
                   PStr "413 Request Entity Too Large: The data value transmitted exceeds the capacity limit." ]} |},
       w') ∧
    calls w' = calls world0 ∧
    log w' = (log world0 ++
      [{| levelname := ERROR;
          msg := [Lit "Error al subir imagen: ";
                  Lit "413 Request Entity Too Large: The data value transmitted exceeds the capacity limit."] |}])%list.
Proof.
  apply (upload_over_limit provider_ok {| content_length := 20000000; files := ∅; refused := None |} world0).
  reflexivity.
Defined.

(** ** [list_images] and [delete_image], case by case *)

Lemma list_images_run (cloudinary : Cloudinary) (w : World) :
  list_images cloudinary w =
    let w1 := after_call (CallResources resources_kwargs) w in
    match sdk_resources cloudinary resources_kwargs with
    | Raise e => failure "Error al listar imágenes: " e w1
    | Return resources =>
        match resources !! "resources" with
        | None => failure "Error al listar imágenes: " (KeyError "resources") w1
        | Some listed =>
            match iter listed with
            | Raise e => failure "Error al listar imágenes: " e w1
            | Return items =>
                match mapM image_summary items with
                | Raise e => failure "Error al listar imágenes: " e w1
                | Return images =>
                    (Return {| status := 200;
                               body := PDict {[ "success" := PBool true;
                                                "images" := PList images;
                                                "total" := PInt (Z.of_nat (List.length images)) ]} |},
                     w1)
                end
            end
        end
    end.
Proof.
  unfold list_images, try_except, api_resources, record_call, lift, logger,
    dict_getitem, mbind, M_bind, mret, M_ret, failure, after_log, after_call.
  destruct (sdk_resources cloudinary resources_kwargs) as [resources|e]; cbn; [|done].
  destruct (resources !! "resources") as [listed|]; cbn; [|done].
  unfold mbind, outcome_bind.
  destruct (iter listed) as [items|e]; cbn; [|done].
  by destruct (mapM image_summary items).
Qed.

Lemma delete_image_run (cloudinary : Cloudinary) (public_id : string) (w : World) :
  delete_image cloudinary public_id w =
    let w1 := after_call (CallDestroy public_id) w in
    match sdk_destroy cloudinary public_id with
    | Raise e => failure "Error al eliminar imagen: " e w1
    | Return result =>
        if eq_str (dict_get result "result" PNone) "ok" then
          (Return {| status := 200;
                     body := PDict {[ "success" := PBool true;
                                      "message" := PStr "Imagen eliminada" ]} |},
           after_log INFO [Lit "Imagen eliminada: "; Lit public_id] w1)
        else
          (Return {| status := 400;
                     body := PDict {[ "error" := PStr "No se pudo eliminar la imagen" ]} |},
           w1)
    end.
Proof.
  unfold delete_image, try_except, uploader_destroy, record_call, lift, logger,
    mbind, M_bind, mret, M_ret, failure, after_log, after_call.
  destruct (sdk_destroy cloudinary public_id) as [result|e]; cbn; [|done].
  by destruct (eq_str (dict_get result "result" PNone) "ok").
Qed.

(** X13.  [list_images] calls the provider exactly once, whatever the
    answer, asking for at most 100 resources of type "upload" under the
    prefix "capturas", with their context. *)
Theorem list_images_one_call (cloudinary : Cloudinary) (w : World) :
  ∃ resp w', list_images cloudinary w = (Return resp, w') ∧
    calls w' = (calls w ++
      [CallResources {[ "type" := PStr "upload";
                        "prefix" := PStr "capturas";
                        "max_results" := PInt 100;
                        "context" := PBool true ]}])%list.
Proof.
  rewrite list_images_run. cbn zeta. unfold failure.
  destruct (sdk_resources cloudinary resources_kwargs) as [resources|e]; [|by eexists _, _].
  destruct (resources !! "resources") as [listed|]; [|by eexists _, _].
  destruct (iter listed) as [items|e]; [|by eexists _, _].
  destruct (mapM image_summary items); by eexists _, _.
Qed.

(** X14.  When the provider's listing raises [e], the view answers 500
    with exactly [{error: str(e)}] and writes one ERROR record with the
    same text. *)
Theorem list_images_provider_failure (cloudinary : Cloudinary) (w : World) (e : Exn) :
  sdk_resources cloudinary resources_kwargs = Raise e →
  ∃ w', list_images cloudinary w =
          (Return {| status := 500; body := PDict {[ "error" := PStr (str e) ]} |}, w') ∧
        log w' = (log w ++ [{| levelname := ERROR;
                               msg := [Lit "Error al listar imágenes: "; Lit (str e)] |}])%list.
Proof.
  intros Hcall. rewrite list_images_run. cbn zeta. rewrite Hcall. by eexists.
Qed.

Lemma list_images_provider_failure_witness :
  ∃ w', list_images provider_down world0 =
          (Return {| status := 500;
                     body := PDict {[ "error" := PStr "Connection refused" ]} |}, w') ∧
        log w' = (log world0 ++
                  [{| levelname := ERROR;
                      msg := [Lit "Error al listar imágenes: ";
                              Lit "Connection refused"] |}])%list.
Proof.
  apply (list_images_provider_failure provider_down world0 (Error "Connection refused")).
  reflexivity.
Defined.

(** X15.  When the provider's answer has no [resources] key, the view
    answers 500 and the error text is the quoted key. *)
Theorem list_images_no_resources_key (cloudinary : Cloudinary) (w : World)
    (resources : gmap string pyval) :
  sdk_resources cloudinary resources_kwargs = Return resources →
  resources !! "resources" = None →
  ∃ w', list_images cloudinary w =
          (Return {| status := 500; body := PDict {[ "error" := PStr "'resources'" ]} |}, w').
Proof.
  intros Hcall Hnone. rewrite list_images_run. cbn zeta. rewrite Hcall, Hnone.
  by eexists.
Qed.

Lemma list_images_no_resources_key_witness :
  ∃ w', list_images
          {| sdk_upload := sdk_upload provider_ok;
             sdk_resources := λ _, Return {[ "next_cursor" := PStr "abc" ]};
             sdk_destroy := sdk_destroy provider_ok |} world0 =
          (Return {| status := 500; body := PDict {[ "error" := PStr "'resources'" ]} |}, w').
Proof.
  apply (list_images_no_resources_key _ world0 {[ "next_cursor" := PStr "abc" ]}).
  - reflexivity.
  - reflexivity.
Defined.

Lemma image_summary_keys (res img : pyval) :
  image_summary res = Return img →
  ∃ d, img = PDict d ∧ dom d = {[ "url"; "public_id"; "created_at"; "format" ]}.
Proof.
  destruct res as [| | | | |d]; try done.
  unfold image_summary, getitem, get, dict_getitem.
  destruct (d !! "secure_url"); cbn; [|done].
  destruct (d !! "public_id"); cbn; [|done].
  intros [= <-]. eexists. split; [done|].
  rewrite !dom_insert_L, dom_singleton_L. reflexivity.
Qed.

(** X16.  Every entry of a listing that is answered has exactly the four
    keys [url], [public_id], [created_at] and [format], whatever other
    fields the provider's resource carries. *)
Theorem list_images_summary_keys (cloudinary : Cloudinary) (w : World) :
  ∃ resp w', list_images cloudinary w = (Return resp, w') ∧
    (status resp = 500 ∨
     ∃ images total,
       body resp = PDict {[ "success" := PBool true;
                            "images" := PList images;
                            "total" := total ]} ∧
       Forall (λ img, ∃ d, img = PDict d ∧
                 dom d = {[ "url"; "public_id"; "created_at"; "format" ]}) images).
Proof.
  rewrite list_images_run. cbn zeta. unfold failure.
  destruct (sdk_resources cloudinary resources_kwargs) as [resources|e];
    [|eexists _, _; split; [done|by left]].
  destruct (resources !! "resources") as [listed|];
    [|eexists _, _; split; [done|by left]].
  destruct (iter listed) as [items|e]; [|eexists _, _; split; [done|by left]].
  destruct (mapM image_summary items) as [images|e] eqn:Hmap;
    [|eexists _, _; split; [done|by left]].
  eexists _, _. split; [done|]. right. eexists images, _. split; [done|].
  apply mapM_Return_inv in Hmap.
  induction Hmap as [|res img items images Hres _ IH]; constructor; [|done].
  by eapply image_summary_keys.
Qed.

(** X17.  The log of [list_images]: a listing that is answered with 200
    writes nothing; one answered with 500 writes one ERROR record with
    the very text sent back as error.  There is no other answer. *)
Theorem list_images_logging (cloudinary : Cloudinary) (w : World) :
  ∃ resp w', list_images cloudinary w = (Return resp, w') ∧
    ((status resp = 200 ∧ log w' = log w) ∨
     (status resp = 500 ∧
      ∃ text, body resp = PDict {[ "error" := PStr text ]} ∧
        log w' = (log w ++ [{| levelname := ERROR;
                               msg := [Lit "Error al listar imágenes: ";
                                       Lit text] |}])%list)).
Proof.
  rewrite list_images_run. cbn zeta. unfold failure.
  destruct (sdk_resources cloudinary resources_kwargs) as [resources|e];
    [|eexists _, _; split; [done|]; right; split; [done|by eexists]].
  destruct (resources !! "resources") as [listed|];
    [|eexists _, _; split; [done|]; right; split; [done|by eexists]].
  destruct (iter listed) as [items|e];
    [|eexists _, _; split; [done|]; right; split; [done|by eexists]].
  destruct (mapM image_summary items) as [images|e];
    [|eexists _, _; split; [done|]; right; split; [done|by eexists]].
  eexists _, _. split; [done|]. by left.
Qed.

(** X18.  A listing with an element that is not an object (a string, a
    number, a list, null) is answered 500 with an error body: the
    subscript on it raises. *)
Theorem list_images_non_object_resource (cloudinary : Cloudinary) (w : World)
    (resources : gmap string pyval) (rs : list pyval) :
  sdk_resources cloudinary resources_kwargs = Return resources →
  resources !! "resources" = Some (PList rs) →
  Exists (λ res, ∀ d, res ≠ PDict d) rs →
  ∃ resp w', list_images cloudinary w = (Return resp, w') ∧
             status resp = 500 ∧ error_body (body resp).
Proof.
  intros Hcall Hlist Hex.
  destruct (mapM_Raise image_summary rs) as [e He].
  { eapply Exists_impl; [exact Hex|].
    intros res Hres. destruct res as [| | | | |d]; try (by eexists).
    by destruct (Hres d). }
  rewrite list_images_run. cbn zeta. rewrite Hcall, Hlist. cbn. rewrite He.
  eexists _, _. split; [reflexivity|]. split; [done|]. by eexists.
Qed.

Lemma list_images_non_object_resource_witness :
  ∃ resp w',
    list_images
      {| sdk_upload := sdk_upload provider_ok;
         sdk_resources := λ _,
           Return {[ "resources" := PList (sample_resources ++ [PStr "capturas/c"]) ]};
         sdk_destroy := sdk_destroy provider_ok |} world0 = (Return resp, w') ∧
    status resp = 500 ∧ error_body (body resp).
Proof.
  apply (list_images_non_object_resource _ world0
           {[ "resources" := PList (sample_resources ++ [PStr "capturas/c"]) ]}
           (sample_resources ++ [PStr "capturas/c"])).
  - reflexivity.
  - reflexivity.
  - apply Exists_app. right. constructor. discriminate.
Defined.

(** X19.  [delete_image] calls the provider exactly once, whatever the
    answer, with the identifier it was given, unchanged. *)
Theorem delete_image_one_call (cloudinary : Cloudinary) (public_id : string) (w : World) :
  ∃ resp w', delete_image cloudinary public_id w = (Return resp, w') ∧
             calls w' = (calls w ++ [CallDestroy public_id])%list.
Proof.
  rewrite delete_image_run. cbn zeta. unfold failure.
  destruct (sdk_destroy cloudinary public_id) as [result|e]; [|by eexists _, _].
  destruct (eq_str (dict_get result "result" PNone) "ok"); by eexists _, _.
Qed.

(** X20.  The log of [delete_image]: a deletion answered 200 writes one
    INFO record naming the identifier; a refusal (400) has a fixed
    message and writes nothing; a 500 writes one ERROR record with the
    very text sent back as error.  There is no other answer. *)
Theorem delete_image_logging (cloudinary : Cloudinary) (public_id : string) (w : World) :
  ∃ resp w', delete_image cloudinary public_id w = (Return resp, w') ∧
    ((status resp = 200 ∧
      log w' = (log w ++ [{| levelname := INFO;
                             msg := [Lit "Imagen eliminada: "; Lit public_id] |}])%list) ∨
     (status resp = 400 ∧
      body resp = PDict {[ "error" := PStr "No se pudo eliminar la imagen" ]} ∧
      log w' = log w) ∨
     (status resp = 500 ∧
      ∃ text, body resp = PDict {[ "error" := PStr text ]} ∧
        log w' = (log w ++ [{| levelname := ERROR;
                               msg := [Lit "Error al eliminar imagen: ";
                                       Lit text] |}])%list)).
Proof.
  rewrite delete_image_run. cbn zeta. unfold failure.
  destruct (sdk_destroy cloudinary public_id) as [result|e].
  - destruct (eq_str (dict_get result "result" PNone) "ok");
      eexists _, _; (split; [done|]); [by left|by right; left].
  - eexists _, _. split; [done|]. right. right. split; [done|]. by eexists.
Qed.

(** X21.  When the provider's destroy raises [e], the view answers 500
    with exactly [{error: str(e)}]. *)
Theorem delete_image_provider_failure (cloudinary : Cloudinary) (public_id : string)
    (w : World) (e : Exn) :
  sdk_destroy cloudinary public_id = Raise e →
  ∃ w', delete_image cloudinary public_id w =
          (Return {| status := 500; body := PDict {[ "error" := PStr (str e) ]} |}, w').
Proof.
  intros Hcall. rewrite delete_image_run. cbn zeta. rewrite Hcall. by eexists.
Qed.

Lemma delete_image_provider_failure_witness :
  ∃ w', delete_image provider_down "capturas/xyz123" world0 =
          (Return {| status := 500;
                     body := PDict {[ "error" := PStr "Connection refused" ]} |}, w').
Proof.
  apply (delete_image_provider_failure provider_down "capturas/xyz123" world0
           (Error "Connection refused")).
  reflexivity.
Defined.

(** X22.  The answer to a deletion depends on the provider's [result]
    entry alone: two provider answers with the same [result] entry (or
    both without one) get the same response. *)
Theorem delete_image_reads_result_only (c1 c2 : Cloudinary) (public_id : string)
    (w : World) (r1 r2 : gmap string pyval) :
  sdk_destroy c1 public_id = Return r1 →
  sdk_destroy c2 public_id = Return r2 →
  r1 !! "result" = r2 !! "result" →
  delete_image c1 public_id w = delete_image c2 public_id w.
Proof.
  intros H1 H2 Hsame. rewrite !delete_image_run. cbn zeta.
  rewrite H1, H2. unfold dict_get. by rewrite Hsame.
Qed.

Lemma delete_image_reads_result_only_witness :
  delete_image provider_ok "capturas/xyz123" world0 =
  delete_image
    {| sdk_upload := sdk_upload provider_ok;
       sdk_resources := sdk_resources provider_ok;
       sdk_destroy := λ _, Return {[ "result" := PStr "ok"; "partial" := PBool false ]} |}
    "capturas/xyz123" world0.
Proof.
  apply (delete_image_reads_result_only provider_ok _ "capturas/xyz123" world0
           {[ "result" := PStr "ok" ]}
           {[ "result" := PStr "ok"; "partial" := PBool false ]}).
  - reflexivity.
  - reflexivity.
  - reflexivity.
Defined.

(** ** The registered handlers *)

(** X23.  The handlers registered for 413, 404 and 500 never send the
    exception to the client: each answers with its own status and a
    fixed [{error: string}] body, the same for every error;
    [internal_error] writes the text of the error to the log only. *)
Theorem error_handlers_hide_the_error (e1 e2 : Exn) (w : World) :
  request_entity_too_large e1 = request_entity_too_large e2 ∧
  status (request_entity_too_large e1) = 413 ∧
  error_body (body (request_entity_too_large e1)) ∧
  not_found e1 = not_found e2 ∧
  status (not_found e1) = 404 ∧
  error_body (body (not_found e1)) ∧
  ∃ resp w1 w2,
    internal_error e1 w = (Return resp, w1) ∧
    internal_error e2 w = (Return resp, w2) ∧
    status resp = 500 ∧ error_body (body resp) ∧
    calls w1 = calls w ∧
    log w1 = (log w ++ [{| levelname := ERROR;
                           msg := [Lit "Error interno: "; Lit (str e1)] |}])%list.
Proof.
  repeat split; try (by eexists).
  eexists _, _, _. repeat split; by eexists.
Qed.
